(** * PoseDetection: a shallow embedding of
    src/pose-detection-app/src/components/PoseDetection.tsx

    Pixel coordinates and confidence scores (JavaScript numbers) are
    modelled as rationals [Q]; the external estimator, the media API and
    the permission API are modelled as environments whose answers are
    given as inputs. *)

From Stdlib Require Import QArith Qabs List String Bool Lia.
Import ListNotations.
Open Scope string_scope.
Open Scope list_scope.

(** ** Data model (posedetection.Keypoint / posedetection.Pose) *)

Record Keypoint := mkKeypoint {
  kx : Q;
  ky : Q;
  kscore : option Q;        (* keypoint.score?: number *)
  kname : option string     (* keypoint.name?: string *)
}.

(** The fields of [posedetection.Pose] read by the component. *)
Record Pose := mkPose { keypoints : list Keypoint }.

(** [a < b] on numbers. *)
Definition Qltb (a b : Q) : bool := negb (Qle_bool b a).

(** [kp.name === n] *)
Definition name_is (n : string) (kp : Keypoint) : bool :=
  match kname kp with
  | Some m => String.eqb m n
  | None => false
  end.

(** [pose.keypoints.find(kp => kp.name === n)] *)
Definition find_kp (kps : list Keypoint) (n : string) : option Keypoint :=
  find (name_is n) kps.

(** [isPerfectAngle] (lines 31-43). *)
Definition isPerfectAngle (pose : Pose) : bool :=
  let kps := keypoints pose in
  match find_kp kps "left_shoulder", find_kp kps "right_shoulder",
        find_kp kps "left_hip", find_kp kps "right_hip" with
  | Some leftShoulder, Some rightShoulder, Some leftHip, Some rightHip =>
      let shoulderDiff := Qabs (ky leftShoulder - ky rightShoulder) in
      let hipDiff := Qabs (ky leftHip - ky rightHip) in
      Qltb shoulderDiff 20 && Qltb hipDiff 20
  | _, _, _, _ => false
  end.

(** ** Canvas operations issued by [detectPose] *)

Record Affine := mkAffine { ma : Q; mb : Q; mc : Q; md : Q; me : Q; mf : Q }.

Definition affine_id : Affine := mkAffine 1 0 0 1 0 0.

(** [ctx.scale(sx, sy)]: post-multiply the current transform. *)
Definition affine_scale (m : Affine) (sx sy : Q) : Affine :=
  mkAffine (ma m * sx) (mb m * sx) (mc m * sy) (md m * sy) (me m) (mf m).

(** [ctx.translate(tx, ty)]: post-multiply the current transform. *)
Definition affine_translate (m : Affine) (tx ty : Q) : Affine :=
  mkAffine (ma m) (mb m) (mc m) (md m)
           (me m + ma m * tx + mc m * ty) (mf m + mb m * tx + md m * ty).

Inductive Op :=
| OSetWidth (w : Q)               (* canvas.width = w *)
| OSetHeight (h : Q)              (* canvas.height = h *)
| OSave                           (* ctx.save() *)
| ORestore                        (* ctx.restore() *)
| OScale (sx sy : Q)              (* ctx.scale(sx, sy) *)
| OTranslate (tx ty : Q)          (* ctx.translate(tx, ty) *)
| OClearRect (x y w h : Q)        (* ctx.clearRect(x, y, w, h) *)
| OBeginPath                      (* ctx.beginPath() *)
| OArcFull (x y r : Q)            (* ctx.arc(x, y, r, 0, 2 * Math.PI) *)
| OSetFill (c : string)           (* ctx.fillStyle = c *)
| OFill                           (* ctx.fill() *)
| OMoveTo (x y : Q)               (* ctx.moveTo(x, y) *)
| OLineTo (x y : Q)               (* ctx.lineTo(x, y) *)
| OSetStroke (c : string)         (* ctx.strokeStyle = c *)
| OSetLineWidth (w : Q)           (* ctx.lineWidth = w *)
| OStroke.                        (* ctx.stroke() *)

(** [keypoint.score !== undefined && keypoint.score > 0.5] *)
Definition score_ok (s : option Q) : bool :=
  match s with
  | Some v => Qltb (1 # 2) v
  | None => false
  end.

(** Lines 87-95: one keypoint of the [forEach]. *)
Definition draw_keypoint (color : string) (keypoint : Keypoint) : list Op :=
  if score_ok (kscore keypoint) then
    [OBeginPath; OArcFull (kx keypoint) (ky keypoint) 5; OSetFill color; OFill]
  else [].

Fixpoint draw_keypoints (color : string) (kps : list Keypoint) : list Op :=
  match kps with
  | [] => []
  | kp :: rest => draw_keypoint color kp ++ draw_keypoints color rest
  end.

(** [drawLine] (lines 62-69). *)
Definition drawLine (from to : Keypoint) (color : string) : list Op :=
  [OBeginPath; OMoveTo (kx from) (ky from); OLineTo (kx to) (ky to);
   OSetStroke color; OSetLineWidth 2; OStroke].

(** [keypointPairs] (lines 98-109). *)
Definition keypointPairs : list (string * string) :=
  [("left_shoulder", "right_shoulder");
   ("left_hip", "right_hip");
   ("left_shoulder", "left_elbow");
   ("left_elbow", "left_wrist");
   ("right_shoulder", "right_elbow");
   ("right_elbow", "right_wrist");
   ("left_hip", "left_knee");
   ("left_knee", "left_ankle");
   ("right_hip", "right_knee");
   ("right_knee", "right_ankle")].

(** Lines 111-117: one pair of the [forEach]. *)
Definition draw_pair (kps : list Keypoint) (color : string)
    (pair : string * string) : list Op :=
  let (fromName, toName) := pair in
  match find_kp kps fromName, find_kp kps toName with
  | Some fromKeypoint, Some toKeypoint =>
      if score_ok (kscore fromKeypoint) && score_ok (kscore toKeypoint)
      then drawLine fromKeypoint toKeypoint color
      else []
  | _, _ => []
  end.

Fixpoint draw_pairs (kps : list Keypoint) (color : string)
    (pairs : list (string * string)) : list Op :=
  match pairs with
  | [] => []
  | p :: rest => draw_pair kps color p ++ draw_pairs kps color rest
  end.

(** [const color = isPerfect ? 'green' : 'red'] *)
Definition pose_color (pose : Pose) : string :=
  if isPerfectAngle pose then "green" else "red".

(** Lines 83-118: the body of [poses.forEach]. *)
Definition draw_pose (pose : Pose) : list Op :=
  let color := pose_color pose in
  draw_keypoints color (keypoints pose)
  ++ draw_pairs (keypoints pose) color keypointPairs.

Fixpoint draw_poses (poses : list Pose) : list Op :=
  match poses with
  | [] => []
  | p :: rest => draw_pose p ++ draw_poses rest
  end.

(** ** The 2D context state touched by the loop *)

Record Canvas := mkCanvas {
  cw : Q;                                     (* canvas.width *)
  ch : Q;                                     (* canvas.height *)
  ctm : Affine;                               (* current transform *)
  saved : list (Affine * string * string * Q);  (* ctx.save() stack *)
  fillS : string;
  strokeS : string;
  lineW : Q;
  painted : list Op                           (* drawing operations issued *)
}.

(** Setting [canvas.width] or [canvas.height] resets the context to its
    default state and clears the bitmap (HTML canvas semantics). *)
Definition reset_canvas (w h : Q) : Canvas :=
  mkCanvas w h affine_id [] "#000000" "#000000" 1 [].

Definition exec (c : Canvas) (op : Op) : Canvas :=
  match op with
  | OSetWidth w => reset_canvas w (ch c)
  | OSetHeight h => reset_canvas (cw c) h
  | OSave =>
      mkCanvas (cw c) (ch c) (ctm c)
        ((ctm c, fillS c, strokeS c, lineW c) :: saved c)
        (fillS c) (strokeS c) (lineW c) (painted c)
  | ORestore =>
      match saved c with
      | [] => c
      | (m, f, s, l) :: rest => mkCanvas (cw c) (ch c) m rest f s l (painted c)
      end
  | OScale sx sy =>
      mkCanvas (cw c) (ch c) (affine_scale (ctm c) sx sy) (saved c)
        (fillS c) (strokeS c) (lineW c) (painted c)
  | OTranslate tx ty =>
      mkCanvas (cw c) (ch c) (affine_translate (ctm c) tx ty) (saved c)
        (fillS c) (strokeS c) (lineW c) (painted c)
  | OSetFill f =>
      mkCanvas (cw c) (ch c) (ctm c) (saved c) f (strokeS c) (lineW c) (painted c)
  | OSetStroke s =>
      mkCanvas (cw c) (ch c) (ctm c) (saved c) (fillS c) s (lineW c) (painted c)
  | OSetLineWidth l =>
      mkCanvas (cw c) (ch c) (ctm c) (saved c) (fillS c) (strokeS c) l (painted c)
  | _ =>
      mkCanvas (cw c) (ch c) (ctm c) (saved c) (fillS c) (strokeS c) (lineW c)
        (painted c ++ [op])
  end.

Definition exec_all (c : Canvas) (ops : list Op) : Canvas := fold_left exec ops c.

(** ** One tick of [detectPose] (lines 71-124) *)

(** What a tick observes: [video.readyState], the frame size, and the
    outcome of [detector.estimatePoses(video)] ([None]: the promise rejects). *)
Record Frame := mkFrame {
  readyState : Z;
  videoWidth : Q;
  videoHeight : Q;
  estimate : option (list Pose)
}.

(** The operations a tick issues, and whether it calls
    [requestAnimationFrame(detectPose)]. A rejected [estimatePoses] ends the
    async body at the [await]: nothing after it runs. *)
Definition tick (fr : Frame) : list Op * bool :=
  if Z.eqb (readyState fr) 4 then
    let pre := [OSetWidth (videoWidth fr); OSetHeight (videoHeight fr);
                OSave; OScale (-1) 1; OTranslate (- videoWidth fr) 0] in
    match estimate fr with
    | None => (pre, false)
    | Some poses =>
        (pre ++ [OClearRect 0 0 (videoWidth fr) (videoHeight fr)]
             ++ draw_poses poses ++ [ORestore], true)
    end
  else ([], false).

(** The context state at the start of every tick that runs, when the
    successive animation frames present [frames]. *)
Fixpoint tick_starts (frames : list Frame) (c : Canvas) : list Canvas :=
  match frames with
  | [] => []
  | fr :: rest =>
      c :: (let (ops, sched) := tick fr in
            if sched then tick_starts rest (exec_all c ops) else [])
  end.

(** ** Error messages and [handleError] (lines 12-29) *)

(** A thrown or rejected value, as far as [handleError] reads it. *)
Record JsError := mkJsError { ename : option string  (* error.name *) }.

Definition msg_generic := "An error occurred while accessing the camera.".
Definition msg_not_allowed :=
  "Camera access was denied. Please allow camera access and try again.".
Definition msg_not_found :=
  "No camera device found. Please ensure a camera is connected and try again.".
Definition msg_abort :=
  "The fetching process for the media resource was aborted. Please try again.".
Definition msg_not_readable :=
  "The media device is not readable. Please check your camera and try again.".
Definition msg_overconstrained :=
  "The constraints specified are not supported by the device. Please check your camera settings and try again.".
Definition msg_security :=
  "Security error while accessing the camera. Please check your browser settings and try again.".
Definition msg_model := "Error loading the MoveNet model.".
Definition msg_perm_denied :=
  "Camera access is denied. Please enable camera permissions in your browser settings.".
Definition msg_perm_unable := "Unable to check camera permissions. Please try again.".

Definition name_eq (e : JsError) (n : string) : bool :=
  match ename e with
  | Some m => String.eqb m n
  | None => false
  end.

(** The message [handleError] passes to [setError]. *)
Definition handleError_msg (e : JsError) : string :=
  if name_eq e "NotAllowedError" then msg_not_allowed
  else if name_eq e "NotFoundError" then msg_not_found
  else if name_eq e "AbortError" then msg_abort
  else if name_eq e "NotReadableError" then msg_not_readable
  else if name_eq e "OverconstrainedError" then msg_overconstrained
  else if name_eq e "SecurityError" then msg_security
  else msg_generic.

(** ** Initialization: observable events and outcomes of the browser calls *)

Inductive Call :=
| PermissionsQuery | GetUserMediaProbe | SetBackend | TfReady
| CreateDetector | GetUserMedia | VideoPlay.

Inductive Event :=
| ECall (c : Call)              (* an external call is issued *)
| EStopTrack (i : nat)          (* track.stop() on the probing stream *)
| ESetError (e : option string) (* setError(e) *)
| EStartLoop.                   (* first detectPose() *)

Inductive PermState := PGranted | PPrompt | PDenied.

(** The answers of the browser and of the model library for one run. *)
Record Env := mkEnv {
  perm : option PermState;              (* None: permissions.query rejects *)
  probe : nat + JsError;                (* probing getUserMedia: #tracks or error *)
  backend_ok : bool;                    (* tf.setBackend('webgl') *)
  ready_ok : bool;                      (* tf.ready() *)
  detector_ok : bool;                   (* posedetection.createDetector *)
  refs_ok : bool;                       (* videoRef.current && canvasRef.current *)
  context_ok : bool;                    (* canvas.getContext('2d') *)
  stream : unit + JsError;              (* getUserMedia({video: true}) *)
  play : unit + JsError                 (* video.play() *)
}.

(** [startVideoStream] (lines 45-131) up to the first [detectPose()]. *)
Definition startVideoStream (env : Env) : list Event :=
  if negb (refs_ok env) then []
  else if negb (context_ok env) then
    [ESetError (Some (handleError_msg (mkJsError (Some "Error"))))]
  else
    ECall GetUserMedia ::
    match stream env with
    | inr err => [ESetError (Some (handleError_msg err))]
    | inl _ =>
        ECall VideoPlay ::
        match play env with
        | inr err => [ESetError (Some (handleError_msg err))]
        | inl _ => [EStartLoop]
        end
    end.

(** [loadModel] (lines 133-144). [startVideoStream] catches its own
    errors, so the [catch] of [loadModel] sees only the model steps. *)
Definition loadModel (env : Env) : list Event :=
  ECall SetBackend ::
  if negb (backend_ok env) then [ESetError (Some msg_model)] else
  ECall TfReady ::
  if negb (ready_ok env) then [ESetError (Some msg_model)] else
  ECall CreateDetector ::
  if negb (detector_ok env) then [ESetError (Some msg_model)] else
  startVideoStream env.

(** The mount effect (lines 146-167). *)
Definition permission_effect (env : Env) : list Event :=
  ECall PermissionsQuery ::
  match perm env with
  | Some PGranted => loadModel env
  | Some PPrompt =>
      ECall GetUserMediaProbe ::
      match probe env with
      | inl ntracks => map EStopTrack (seq 0 ntracks) ++ loadModel env
      | inr err => [ESetError (Some (handleError_msg err))]
      end
  | Some PDenied => [ESetError (Some msg_perm_denied)]
  | None => [ESetError (Some msg_perm_unable)]
  end.

(** The [error] state after a sequence of events. *)
Fixpoint error_after (err : option string) (evs : list Event) : option string :=
  match evs with
  | [] => err
  | ESetError e :: rest => error_after e rest
  | _ :: rest => error_after err rest
  end.

(** [retry] (lines 169-172), from the current [error] state: the events
    it causes and the resulting [error] state. *)
Definition retry (err : option string) (env : Env) : list Event * option string :=
  let evs := ESetError None :: loadModel env in
  (evs, error_after err evs).

(** ** Rendering (lines 174-189) *)

Inductive Node :=
| NErrorText (t : string)       (* <Typography color="error">{error}</Typography> *)
| NRetryButton                  (* <Button onClick={retry}>Retry</Button> *)
| NVideo (display : string)     (* <video style={{display: ...}} /> *)
| NCanvas.                      (* <canvas style={{position: 'absolute', ...}} /> *)

Definition render (error : option string) : list Node :=
  match error with
  | Some e =>
      (if String.eqb e "" then [] else [NErrorText e; NRetryButton])
      ++ [NVideo (if String.eqb e "" then "block" else "none"); NCanvas]
  | None => [NVideo "block"; NCanvas]
  end.

(** ** Further definitions used by the properties below *)

(** Image of the point [(x, y)] under a transform, as [DOMMatrix] applies it. *)
Definition apply_affine (m : Affine) (x y : Q) : Q * Q :=
  (ma m * x + mc m * y + me m, mb m * x + md m * y + mf m).

(** Operations that [exec] records in [painted]. *)
Definition paints (op : Op) : bool :=
  match op with
  | OClearRect _ _ _ _ | OBeginPath | OArcFull _ _ _ | OFill
  | OMoveTo _ _ | OLineTo _ _ | OStroke => true
  | _ => false
  end.

Definition is_set_error (ev : Event) : bool :=
  match ev with ESetError _ => true | _ => false end.

Definition is_stroke (op : Op) : bool := match op with OStroke => true | _ => false end.
Definition is_fill (op : Op) : bool := match op with OFill => true | _ => false end.

(** Move every keypoint vertically by [t] and horizontally by [f]. *)
Definition shift_kp (f : Q -> Q) (t : Q) (kp : Keypoint) : Keypoint :=
  mkKeypoint (f (kx kp)) (ky kp + t) (kscore kp) (kname kp).

(** Exchange the left and right names of the shoulders and hips. *)
Definition swap_name (n : option string) : option string :=
  match n with
  | Some m =>
      if String.eqb m "left_shoulder" then Some "right_shoulder"
      else if String.eqb m "right_shoulder" then Some "left_shoulder"
      else if String.eqb m "left_hip" then Some "right_hip"
      else if String.eqb m "right_hip" then Some "left_hip"
      else Some m
  | None => None
  end.

Definition swap_kp (kp : Keypoint) : Keypoint :=
  mkKeypoint (kx kp) (ky kp) (kscore kp) (swap_name (kname kp)).

(** ** Shared lemmas *)

Lemma Qltb_iff (a b : Q) : Qltb a b = true <-> a < b.
Proof.
  unfold Qltb. rewrite negb_true_iff. split.
  - intros H. apply Qnot_le_lt. intros Hle.
    apply Qle_bool_iff in Hle. congruence.
  - intros H. destruct (Qle_bool b a) eqn:E; [|reflexivity].
    apply Qle_bool_iff in E. exfalso. apply (Qlt_not_le a b); assumption.
Qed.

Lemma score_ok_iff (s : option Q) :
  score_ok s = true <-> exists v, s = Some v /\ 1 # 2 < v.
Proof.
  destruct s as [v|]; simpl.
  - rewrite Qltb_iff. split; [intros H; exists v; auto|].
    intros [w [Hw Hlt]]. injection Hw as ->. exact Hlt.
  - split; [discriminate|]. intros [w [Hw _]]. discriminate.
Qed.

(** Replacing every score leaves the names, hence every [find], alone. *)
Definition rescore (f : Keypoint -> option Q) (kp : Keypoint) : Keypoint :=
  mkKeypoint (kx kp) (ky kp) (f kp) (kname kp).

Lemma find_kp_rescore (f : Keypoint -> option Q) (kps : list Keypoint) (n : string) :
  find_kp (map (rescore f) kps) n = option_map (rescore f) (find_kp kps n).
Proof.
  unfold find_kp. induction kps as [|kp rest IH]; simpl; [reflexivity|].
  unfold name_is at 1. simpl. fold (name_is n kp).
  destruct (name_is n kp); [reflexivity|exact IH].
Qed.

Lemma draw_keypoints_filter (color : string) (kps : list Keypoint) :
  draw_keypoints color kps =
  flat_map (fun kp => [OBeginPath; OArcFull (kx kp) (ky kp) 5; OSetFill color; OFill])
    (filter (fun kp => score_ok (kscore kp)) kps).
Proof.
  induction kps as [|kp rest IH]; simpl; [reflexivity|].
  unfold draw_keypoint. destruct (score_ok (kscore kp)); simpl; rewrite IH; reflexivity.
Qed.

Lemma draw_pairs_flat_map (kps : list Keypoint) (color : string)
    (pairs : list (string * string)) :
  draw_pairs kps color pairs = flat_map (draw_pair kps color) pairs.
Proof. induction pairs as [|p rest IH]; simpl; [reflexivity|]. rewrite IH; reflexivity. Qed.

(** ** Sample poses *)

Definition named_kp (n : string) (x y s : Q) : Keypoint := mkKeypoint x y (Some s) (Some n).

(** A full upper/lower body in which every limb keypoint has score [s]
    except [left_shoulder], which has score [ls]. *)
Definition body (ls s : Q) : Pose :=
  mkPose [named_kp "left_shoulder" 100 100 ls; named_kp "right_shoulder" 200 105 s;
          named_kp "left_elbow" 90 150 s; named_kp "right_elbow" 210 150 s;
          named_kp "left_wrist" 85 190 s; named_kp "right_wrist" 215 190 s;
          named_kp "left_hip" 120 200 s; named_kp "right_hip" 180 215 s;
          named_kp "left_knee" 120 280 s; named_kp "right_knee" 180 280 s;
          named_kp "left_ankle" 120 360 s; named_kp "right_ankle" 180 360 s].

Example body_scenario1 : isPerfectAngle (body (9 # 10) (9 # 10)) = true.
Proof. reflexivity. Qed.

Example body_scenario3 :
  isPerfectAngle (mkPose (filter (fun kp => negb (name_is "left_hip" kp))
                            (keypoints (body (9 # 10) (9 # 10))))) = false.
Proof. reflexivity. Qed.

(** ** C1: the Alignment Verdict *)

(** C1. [isPerfectAngle pose] is true exactly when the four keypoints named
    left_shoulder, right_shoulder, left_hip and right_hip are all found in the
    pose (the first keypoint carrying each name), the absolute difference of
    the two shoulders' y is below 20 and that of the two hips' y is below 20;
    if any of the four names is missing, the verdict is false. *)
Theorem isPerfectAngle_spec (pose : Pose) :
  let kps := keypoints pose in
  (isPerfectAngle pose = true <->
   exists ls rs lh rh,
     find_kp kps "left_shoulder" = Some ls /\ find_kp kps "right_shoulder" = Some rs /\
     find_kp kps "left_hip" = Some lh /\ find_kp kps "right_hip" = Some rh /\
     Qabs (ky ls - ky rs) < 20 /\ Qabs (ky lh - ky rh) < 20) /\
  ((find_kp kps "left_shoulder" = None \/ find_kp kps "right_shoulder" = None \/
    find_kp kps "left_hip" = None \/ find_kp kps "right_hip" = None) ->
   isPerfectAngle pose = false).
Proof.
  intros kps. unfold isPerfectAngle. fold kps. split.
  - destruct (find_kp kps "left_shoulder") as [ls|];
    destruct (find_kp kps "right_shoulder") as [rs|];
    destruct (find_kp kps "left_hip") as [lh|];
    destruct (find_kp kps "right_hip") as [rh|];
    try (split; [discriminate|intros (a & b & c & d & H1 & H2 & H3 & H4 & _); discriminate]).
    rewrite andb_true_iff, !Qltb_iff. split.
    + intros [H1 H2]. exists ls, rs, lh, rh. auto 7.
    + intros (a & b & c & d & H1 & H2 & H3 & H4 & H5 & H6).
      injection H1 as <-. injection H2 as <-. injection H3 as <-. injection H4 as <-.
      auto.
  - intros [H|[H|[H|H]]]; rewrite H;
    destruct (find_kp kps "left_shoulder"); destruct (find_kp kps "right_shoulder");
    destruct (find_kp kps "left_hip"); reflexivity.
Qed.

(** ** C10: the verdict ignores scores *)

(** C10. Changing the scores of a pose's keypoints in any way never changes
    [isPerfectAngle]; in particular a pose whose four required keypoints all
    have score 0.3 (too low to be drawn) is judged aligned, and its dots are
    not drawn while its color is green. *)
Theorem isPerfectAngle_ignores_scores :
  (forall (f : Keypoint -> option Q) (pose : Pose),
     isPerfectAngle (mkPose (map (rescore f) (keypoints pose))) = isPerfectAngle pose) /\
  (let low := body (3 # 10) (3 # 10) in
   isPerfectAngle low = true /\ pose_color low = "green" /\
   draw_keypoints (pose_color low) (keypoints low) = []).
Proof.
  split.
  - intros f pose. unfold isPerfectAngle. simpl. rewrite !find_kp_rescore.
    destruct (find_kp (keypoints pose) "left_shoulder");
    destruct (find_kp (keypoints pose) "right_shoulder");
    destruct (find_kp (keypoints pose) "left_hip");
    destruct (find_kp (keypoints pose) "right_hip"); reflexivity.
  - vm_compute. auto.
Qed.

(** ** C2: keypoint dots *)

(** C2. The operations drawn for a pose start with, for each keypoint in
    order whose score is defined and strictly above 0.5, a filled circle of
    radius 5 at its coordinates in the pose's color, and nothing for the other
    keypoints; a score of exactly 0.5 (or no score) draws nothing. Drawing
    reads the pose and never removes its keypoints. *)
Theorem keypoint_dots_spec (pose : Pose) :
  draw_pose pose =
    flat_map (fun kp => [OBeginPath; OArcFull (kx kp) (ky kp) 5;
                         OSetFill (pose_color pose); OFill])
      (filter (fun kp => score_ok (kscore kp)) (keypoints pose))
    ++ draw_pairs (keypoints pose) (pose_color pose) keypointPairs /\
  (forall kp, score_ok (kscore kp) = true <->
              exists v, kscore kp = Some v /\ 1 # 2 < v) /\
  (forall color x y n,
     draw_keypoint color (mkKeypoint x y (Some (1 # 2)) n) = [] /\
     draw_keypoint color (mkKeypoint x y None n) = []).
Proof.
  split; [|split].
  - unfold draw_pose. rewrite draw_keypoints_filter. reflexivity.
  - intros kp. apply score_ok_iff.
  - intros color x y n. split; reflexivity.
Qed.

(** ** C3: skeleton edges *)

Definition edge_ls_rs : string * string := ("left_shoulder", "right_shoulder").
Definition edge_ls_le : string * string := ("left_shoulder", "left_elbow").

(** C3 as stated fails: lowering the score of left_shoulder to 0.3 in a
    fully confident body suppresses both edges that end at it, not one. *)
Lemma edge_suppression_not_single :
  let p := body (9 # 10) (9 # 10) in
  let p' := body (3 # 10) (9 # 10) in
  draw_pair (keypoints p) (pose_color p) edge_ls_rs <> [] /\
  draw_pair (keypoints p) (pose_color p) edge_ls_le <> [] /\
  draw_pair (keypoints p') (pose_color p') edge_ls_rs = [] /\
  draw_pair (keypoints p') (pose_color p') edge_ls_le = [].
Proof. vm_compute. repeat split; discriminate. Qed.

(** C3 (amended). The edges of a pose are drawn pair by pair over
    [keypointPairs]; a pair [(a, b)] yields a width-2 line in the given color
    between the first keypoints named [a] and [b] exactly when both are found
    and both scores are above 0.5, and nothing otherwise; what a pair yields
    depends only on the keypoints found for its own two names, so two
    keypoint lists that agree on those draw the same thing for that pair; and
    when no keypoint carries the name [a], or the first one carrying it has a
    score of at most 0.5 (or none), every pair having [a] as an endpoint, on
    either side, yields nothing. *)
Theorem skeleton_edge_spec (kps kps' : list Keypoint) (color a b : string) :
  find_kp kps a = find_kp kps' a ->
  find_kp kps b = find_kp kps' b ->
  draw_pair kps color (a, b) = draw_pair kps' color (a, b) /\
  (draw_pair kps color (a, b) <> [] <->
   exists ka kb, find_kp kps a = Some ka /\ find_kp kps b = Some kb /\
     score_ok (kscore ka) = true /\ score_ok (kscore kb) = true) /\
  (forall ka kb, find_kp kps a = Some ka -> find_kp kps b = Some kb ->
     score_ok (kscore ka) = true -> score_ok (kscore kb) = true ->
     draw_pair kps color (a, b) =
       [OBeginPath; OMoveTo (kx ka) (ky ka); OLineTo (kx kb) (ky kb);
        OSetStroke color; OSetLineWidth 2; OStroke]) /\
  (forall n, (find_kp kps a = None \/
              exists ka, find_kp kps a = Some ka /\ score_ok (kscore ka) = false) ->
     draw_pair kps color (a, n) = [] /\ draw_pair kps color (n, a) = []) /\
  draw_pairs kps color keypointPairs = flat_map (draw_pair kps color) keypointPairs.
Proof.
  intros Ha Hb. split; [|split; [|split; [|split]]].
  - simpl. rewrite Ha, Hb. reflexivity.
  - simpl. destruct (find_kp kps a) as [ka|]; destruct (find_kp kps b) as [kb|].
    + split.
      * intros H. exists ka, kb. repeat split; auto;
        destruct (score_ok (kscore ka)), (score_ok (kscore kb)); simpl in H;
        solve [reflexivity | contradiction H; reflexivity].
      * intros (x & y & Hx & Hy & H1 & H2). injection Hx as <-. injection Hy as <-.
        rewrite H1, H2. simpl. discriminate.
    + split; [intros H; contradiction H; reflexivity|].
      intros (x & y & _ & Hy & _). discriminate.
    + split; [intros H; contradiction H; reflexivity|].
      intros (x & y & Hx & _). discriminate.
    + split; [intros H; contradiction H; reflexivity|].
      intros (x & y & Hx & _). discriminate.
  - intros ka kb H1 H2 H3 H4. simpl. rewrite H1, H2, H3, H4. reflexivity.
  - intros n [H|(ka & H & Hs)]; simpl; rewrite H.
    + split; [reflexivity|]. destruct (find_kp kps n); reflexivity.
    + destruct (find_kp kps n); [|split; reflexivity].
      rewrite Hs, andb_false_r. split; reflexivity.
  - apply draw_pairs_flat_map.
Qed.

(** ** The loop: transform and save-stack bookkeeping *)

(** Operations that leave the transform and the save stack alone. *)
Definition keeps_transform (op : Op) : bool :=
  match op with
  | OSetWidth _ | OSetHeight _ | OSave | ORestore | OScale _ _ | OTranslate _ _ => false
  | _ => true
  end.

Lemma exec_all_app (c : Canvas) (l1 l2 : list Op) :
  exec_all c (l1 ++ l2) = exec_all (exec_all c l1) l2.
Proof. unfold exec_all. apply fold_left_app. Qed.

Lemma exec_all_keeps (ops : list Op) (c : Canvas) :
  forallb keeps_transform ops = true ->
  ctm (exec_all c ops) = ctm c /\ saved (exec_all c ops) = saved c.
Proof.
  revert c. induction ops as [|op rest IH]; intros c H; simpl; [auto|].
  simpl in H. apply andb_true_iff in H as [H1 H2].
  destruct (IH (exec c op) H2) as [-> ->].
  destruct op; simpl in H1 |- *; try discriminate; auto.
Qed.

Lemma draw_pose_keeps (p : Pose) : forallb keeps_transform (draw_pose p) = true.
Proof.
  unfold draw_pose. rewrite forallb_app. apply andb_true_iff. split.
  - generalize (pose_color p). intros color. induction (keypoints p) as [|kp rest IH];
    simpl; [reflexivity|]. rewrite forallb_app, IH. unfold draw_keypoint.
    destruct (score_ok (kscore kp)); reflexivity.
  - generalize (pose_color p). intros color. induction keypointPairs as [|[a b] rest IH];
    simpl; [reflexivity|]. rewrite forallb_app, IH.
    destruct (find_kp (keypoints p) a), (find_kp (keypoints p) b); try reflexivity.
    destruct (score_ok _ && score_ok _); reflexivity.
Qed.

Lemma draw_poses_keeps (ps : list Pose) : forallb keeps_transform (draw_poses ps) = true.
Proof.
  induction ps as [|p rest IH]; simpl; [reflexivity|].
  rewrite forallb_app, IH, draw_pose_keeps. reflexivity.
Qed.

(** The body between [ctx.save()] and [ctx.restore()] returns the transform
    and the save stack to their values before [ctx.save()], from any state. *)
Lemma mirror_body_balanced (c : Canvas) (w h : Q) (poses : list Pose) :
  let c' := exec_all c ([OSave; OScale (-1) 1; OTranslate (- w) 0; OClearRect 0 0 w h]
                        ++ draw_poses poses ++ [ORestore]) in
  ctm c' = ctm c /\ saved c' = saved c.
Proof.
  intros c'. unfold c'. rewrite !exec_all_app.
  set (c1 := exec_all c [OSave; OScale (-1) 1; OTranslate (- w) 0; OClearRect 0 0 w h]).
  destruct (exec_all_keeps (draw_poses poses) c1 (draw_poses_keeps poses)) as [E1 E2].
  assert (Hs : saved c1 = (ctm c, fillS c, strokeS c, lineW c) :: saved c)
    by reflexivity.
  simpl. unfold exec. rewrite E2, Hs. auto.
Qed.

Lemma tick_ready_ops (fr : Frame) (poses : list Pose) :
  readyState fr = 4%Z -> estimate fr = Some poses ->
  tick fr = ([OSetWidth (videoWidth fr); OSetHeight (videoHeight fr)]
              ++ ([OSave; OScale (-1) 1; OTranslate (- videoWidth fr) 0;
                   OClearRect 0 0 (videoWidth fr) (videoHeight fr)]
                  ++ draw_poses poses ++ [ORestore]), true).
Proof. intros Hr He. unfold tick. rewrite Hr, He. reflexivity. Qed.

(** ** C8: the mirror transform never compounds *)

(** C8. Every tick that completes its drawing ends with the identity
    transform and an empty save stack (the [ctx.restore()] undoes the mirror
    set up after [ctx.save()]); hence, starting from a fresh context, the
    transform is the identity at the start of every tick the loop runs,
    whatever the frames are. *)
Theorem mirror_never_compounds :
  (forall (fr : Frame) (c : Canvas),
     snd (tick fr) = true ->
     ctm (exec_all c (fst (tick fr))) = affine_id /\ saved (exec_all c (fst (tick fr))) = []) /\
  (forall (frames : list Frame) (c : Canvas),
     ctm c = affine_id -> Forall (fun c0 => ctm c0 = affine_id) (tick_starts frames c)).
Proof.
  assert (Htick : forall (fr : Frame) (c : Canvas), snd (tick fr) = true ->
     ctm (exec_all c (fst (tick fr))) = affine_id /\ saved (exec_all c (fst (tick fr))) = []).
  { intros fr c Hs. destruct (Z.eqb (readyState fr) 4) eqn:Er.
    - apply Z.eqb_eq in Er. destruct (estimate fr) as [poses|] eqn:Ee.
      + rewrite (tick_ready_ops fr poses Er Ee). cbn [fst]. rewrite exec_all_app.
        apply (mirror_body_balanced
                 (exec_all c [OSetWidth (videoWidth fr); OSetHeight (videoHeight fr)])).
      + unfold tick in Hs. rewrite Er, Ee in Hs. discriminate.
    - unfold tick in Hs. rewrite Er in Hs. discriminate. }
  split; [exact Htick|].
  intros frames. induction frames as [|fr rest IH]; intros c Hc; simpl; [constructor|].
  constructor; [exact Hc|].
  destruct (tick fr) as [ops sched] eqn:Et. destruct sched; [|constructor].
  apply IH. pose proof (Htick fr c) as H. rewrite Et in H. apply H. reflexivity.
Qed.

(** ** C4: a tick whose frame is not ready *)

(** C4 (code defect). A tick whose video is not at [readyState === 4] issues
    no operation, but it does not schedule the next tick either: the
    [requestAnimationFrame] call sits inside the ready branch, so the loop
    stops for good at the first frame that is not ready. *)
Theorem not_ready_tick_stops_loop (fr : Frame) (c : Canvas) (rest : list Frame) :
  readyState fr <> 4%Z ->
  tick fr = ([], false) /\ tick_starts (fr :: rest) c = [c].
Proof.
  intros Hr. assert (E : tick fr = ([], false)).
  { unfold tick. apply Z.eqb_neq in Hr. rewrite Hr. reflexivity. }
  split; [exact E|]. simpl. rewrite E. reflexivity.
Qed.

(** ** C6: the capture-error messages *)

(** C6. [handleError] maps each of NotAllowedError, NotFoundError,
    AbortError, NotReadableError, OverconstrainedError and SecurityError to
    its own fixed message, every other error (any other name, or none) to
    the generic camera-error message, and these seven messages are pairwise
    distinct. *)
Theorem handleError_taxonomy :
  handleError_msg (mkJsError (Some "NotAllowedError")) = msg_not_allowed /\
  handleError_msg (mkJsError (Some "NotFoundError")) = msg_not_found /\
  handleError_msg (mkJsError (Some "AbortError")) = msg_abort /\
  handleError_msg (mkJsError (Some "NotReadableError")) = msg_not_readable /\
  handleError_msg (mkJsError (Some "OverconstrainedError")) = msg_overconstrained /\
  handleError_msg (mkJsError (Some "SecurityError")) = msg_security /\
  (forall e : JsError,
     ~ In (ename e) [Some "NotAllowedError"; Some "NotFoundError"; Some "AbortError";
                     Some "NotReadableError"; Some "OverconstrainedError";
                     Some "SecurityError"] ->
     handleError_msg e = msg_generic) /\
  NoDup [msg_not_allowed; msg_not_found; msg_abort; msg_not_readable;
         msg_overconstrained; msg_security; msg_generic].
Proof.
  split; [reflexivity|]. split; [reflexivity|]. split; [reflexivity|].
  split; [reflexivity|]. split; [reflexivity|]. split; [reflexivity|]. split.
  - intros [[n|]] Hn; [|reflexivity]. unfold handleError_msg, name_eq. simpl.
    repeat match goal with
    | |- context [String.eqb n ?m] =>
        let E := fresh "E" in
        destruct (String.eqb n m) eqn:E;
        [apply String.eqb_eq in E; subst; exfalso; apply Hn; simpl; tauto|]
    end.
    reflexivity.
  - repeat constructor; simpl; intros H; repeat destruct H as [H|H];
    try discriminate H; exact H.
Qed.

(** ** C7: the permission gate *)

(** C7. After querying the permission: granted proceeds straight to
    [loadModel]; prompt requests a probing stream and, if it is granted,
    stops each of its tracks before [loadModel]; denied only sets the fixed
    denial message and does nothing more (no retry); a rejected query only
    sets the unable-to-check message, which differs from the denial one.
    [loadModel] starts with setting the backend, so the tracks are stopped
    before any model work. *)
Theorem permission_gate_outcomes (env : Env) :
  (perm env = Some PGranted ->
   permission_effect env = ECall PermissionsQuery :: loadModel env) /\
  (forall ntracks, perm env = Some PPrompt -> probe env = inl ntracks ->
   permission_effect env =
     [ECall PermissionsQuery; ECall GetUserMediaProbe]
     ++ map EStopTrack (seq 0 ntracks) ++ loadModel env) /\
  (perm env = Some PDenied ->
   permission_effect env = [ECall PermissionsQuery; ESetError (Some msg_perm_denied)]) /\
  (perm env = None ->
   permission_effect env = [ECall PermissionsQuery; ESetError (Some msg_perm_unable)]) /\
  msg_perm_denied <> msg_perm_unable /\
  hd_error (loadModel env) = Some (ECall SetBackend).
Proof.
  unfold permission_effect.
  split; [intros H; rewrite H; reflexivity|].
  split; [intros n H1 H2; rewrite H1, H2; reflexivity|].
  split; [intros H; rewrite H; reflexivity|].
  split; [intros H; rewrite H; reflexivity|].
  split; [discriminate|reflexivity].
Qed.

(** ** C9: the denied scenario *)

Definition env_ok : Env :=
  mkEnv (Some PGranted) (inl 1%nat) true true true true true (inl tt) (inl tt).

Definition env_denied : Env :=
  mkEnv (Some PDenied) (inl 1%nat) true true true true true (inl tt) (inl tt).

(** C9 as stated fails: with the permission denied, the canvas element is
    still part of the rendered tree (it has no display toggle). *)
Lemma denied_still_renders_canvas :
  In NCanvas (render (error_after None (permission_effect env_denied))).
Proof. vm_compute. tauto. Qed.

(** C9 (amended). When the permission query answers denied, the [error]
    state becomes the fixed denial message, the rendered tree is the error
    text with that message, the Retry button, the video with display none and
    the canvas (still present), and no drawing loop was started. *)
Theorem denied_view (env : Env) :
  perm env = Some PDenied ->
  let err := error_after None (permission_effect env) in
  err = Some msg_perm_denied /\
  render err = [NErrorText msg_perm_denied; NRetryButton; NVideo "none"; NCanvas] /\
  ~ In EStartLoop (permission_effect env).
Proof.
  intros H. unfold permission_effect. rewrite H. simpl.
  split; [reflexivity|]. split; [reflexivity|].
  intros [E|[E|E]]; [discriminate|discriminate|exact E].
Qed.

(** ** C5: Retry *)

(** C5 as stated fails: Retry does not query the permission again, and it
    loads the model before acquiring the camera. *)
Lemma retry_skips_permission_check :
  fst (retry (Some msg_perm_denied) env_ok) =
    [ESetError None; ECall SetBackend; ECall TfReady; ECall CreateDetector;
     ECall GetUserMedia; ECall VideoPlay; EStartLoop] /\
  ~ In (ECall PermissionsQuery) (fst (retry (Some msg_perm_denied) env_ok)).
Proof.
  split; [reflexivity|]. vm_compute.
  intros H; repeat destruct H as [H|H]; try discriminate H; exact H.
Qed.

Lemma startVideoStream_no_query (env : Env) :
  ~ In (ECall PermissionsQuery) (startVideoStream env).
Proof.
  unfold startVideoStream.
  destruct (refs_ok env), (context_ok env), (stream env), (play env); simpl;
  intros H; repeat destruct H as [H|H]; try discriminate H; exact H.
Qed.

(** C5 (amended). Retry first clears the [error] state (the view then shows
    no error text) and then runs [loadModel]: backend, readiness and
    detector creation, then camera capture and the start of the loop. The
    events and the resulting [error] state do not depend on the error that
    was displayed, and the permission query is not run again. *)
Theorem retry_restarts_loadModel (err err' : option string) (env : Env) :
  fst (retry err env) = ESetError None :: loadModel env /\
  retry err env = retry err' env /\
  render (error_after err [ESetError None]) = [NVideo "block"; NCanvas] /\
  ~ In (ECall PermissionsQuery) (fst (retry err env)) /\
  (In (ECall GetUserMedia) (loadModel env) ->
   exists rest, loadModel env =
     ECall SetBackend :: ECall TfReady :: ECall CreateDetector :: rest).
Proof.
  split; [reflexivity|]. split; [reflexivity|]. split; [reflexivity|]. split.
  - simpl. intros [H|H]; [discriminate|]. unfold loadModel in H.
    destruct (backend_ok env), (ready_ok env), (detector_ok env); simpl in H;
    repeat destruct H as [H|H]; try discriminate H; try exact H;
    exact (startVideoStream_no_query env H).
  - unfold loadModel. intros H.
    destruct (backend_ok env), (ready_ok env), (detector_ok env); simpl in H |- *;
    try (eexists; reflexivity);
    repeat destruct H as [H|H]; discriminate H || contradiction H.
Qed.

(** ** Witnesses: the theorems applied at concrete inputs *)

Definition body_without (n : string) : Pose :=
  mkPose (filter (fun kp => negb (name_is n kp)) (keypoints (body (9 # 10) (9 # 10)))).

Lemma isPerfectAngle_spec_witness :
  find_kp (keypoints (body_without "left_hip")) "left_hip" = None /\
  isPerfectAngle (body_without "left_hip") = false.
Proof.
  split; [reflexivity|].
  apply (proj2 (isPerfectAngle_spec (body_without "left_hip"))).
  right; right; left. reflexivity.
Defined.

Lemma keypoint_dots_spec_witness :
  score_ok (kscore (named_kp "left_knee" 120 280 (9 # 10))) = true.
Proof.
  apply (proj2 (proj1 (proj2 (keypoint_dots_spec (body (9 # 10) (9 # 10))))
                  (named_kp "left_knee" 120 280 (9 # 10)))).
  exists (9 # 10). split; [reflexivity|]. vm_compute. reflexivity.
Defined.

Lemma skeleton_edge_spec_witness :
  draw_pair (keypoints (body (9 # 10) (9 # 10))) "green" ("left_hip", "left_knee") =
  draw_pair (keypoints (body (3 # 10) (9 # 10))) "green" ("left_hip", "left_knee").
Proof.
  apply (proj1 (skeleton_edge_spec (keypoints (body (9 # 10) (9 # 10)))
                  (keypoints (body (3 # 10) (9 # 10))) "green" "left_hip" "left_knee"
                  ltac:(vm_compute; reflexivity) ltac:(vm_compute; reflexivity))).
Defined.

Lemma not_ready_tick_stops_loop_witness :
  (3 <> 4)%Z /\
  tick_starts [mkFrame 3 640 480 (Some []); mkFrame 4 640 480 (Some [])]
              (reset_canvas 300 150) = [reset_canvas 300 150].
Proof.
  split; [discriminate|].
  apply (proj2 (not_ready_tick_stops_loop (mkFrame 3 640 480 (Some []))
                  (reset_canvas 300 150) [mkFrame 4 640 480 (Some [])]
                  ltac:(discriminate))).
Defined.

Lemma mirror_never_compounds_witness :
  Forall (fun c0 => ctm c0 = affine_id)
    (tick_starts [mkFrame 4 640 480 (Some [body (9 # 10) (9 # 10)]);
                  mkFrame 4 640 480 (Some []); mkFrame 2 640 480 None]
                 (reset_canvas 300 150)).
Proof.
  apply (proj2 mirror_never_compounds). reflexivity.
Defined.

Lemma handleError_taxonomy_witness :
  handleError_msg (mkJsError (Some "TypeError")) = msg_generic.
Proof.
  destruct handleError_taxonomy as (_ & _ & _ & _ & _ & _ & Hgen & _).
  apply Hgen. simpl. intros H; repeat destruct H as [H|H]; try discriminate H; exact H.
Defined.

Lemma permission_gate_outcomes_witness :
  permission_effect env_denied =
    [ECall PermissionsQuery; ESetError (Some msg_perm_denied)].
Proof.
  apply (proj1 (proj2 (proj2 (permission_gate_outcomes env_denied)))). reflexivity.
Defined.

Lemma denied_view_witness :
  render (error_after None (permission_effect env_denied)) =
    [NErrorText msg_perm_denied; NRetryButton; NVideo "none"; NCanvas].
Proof. apply (proj1 (proj2 (denied_view env_denied eq_refl))). Defined.

Lemma retry_restarts_loadModel_witness :
  exists rest, loadModel env_ok =
    ECall SetBackend :: ECall TfReady :: ECall CreateDetector :: rest.
Proof.
  apply (proj2 (proj2 (proj2 (proj2
           (retry_restarts_loadModel (Some msg_perm_denied) None env_ok))))).
  simpl. tauto.
Defined.

(** ** Further properties of the loop *)

Lemma exec_all_keeps_fields (ops : list Op) (c : Canvas) :
  forallb keeps_transform ops = true ->
  cw (exec_all c ops) = cw c /\ ch (exec_all c ops) = ch c /\
  ctm (exec_all c ops) = ctm c /\ saved (exec_all c ops) = saved c /\
  painted (exec_all c ops) = painted c ++ filter paints ops.
Proof.
  revert c. induction ops as [|op rest IH]; intros c H; simpl; [rewrite app_nil_r; auto|].
  simpl in H. apply andb_true_iff in H as [H1 H2].
  destruct (IH (exec c op) H2) as (-> & -> & -> & -> & ->).
  destruct op; simpl in H1 |- *; try discriminate; rewrite <- ?app_assoc; auto 6.
Qed.

Lemma forallb_firstn {A} (f : A -> bool) (k : nat) (l : list A) :
  forallb f l = true -> forallb f (firstn k l) = true.
Proof.
  intros H. rewrite <- (firstn_skipn k l), forallb_app in H.
  apply andb_true_iff in H. exact (proj1 H).
Qed.

(** Every tick that draws ends in a state that depends only on the frame:
    the canvas has the video's size, the default context state (identity
    transform, empty save stack, default styles), and its content is the
    full-canvas clear followed by exactly the drawing of this frame's poses;
    nothing drawn by earlier ticks survives. *)
Theorem tick_final_state (fr : Frame) (poses : list Pose) (c : Canvas) :
  readyState fr = 4%Z -> estimate fr = Some poses ->
  exec_all c (fst (tick fr)) =
    mkCanvas (videoWidth fr) (videoHeight fr) affine_id [] "#000000" "#000000" 1
      (OClearRect 0 0 (videoWidth fr) (videoHeight fr) :: filter paints (draw_poses poses)).
Proof.
  intros Hr He. rewrite (tick_ready_ops fr poses Hr He). cbn [fst].
  rewrite !exec_all_app.
  set (c1 := exec_all (exec_all c [OSetWidth (videoWidth fr); OSetHeight (videoHeight fr)])
               [OSave; OScale (-1) 1; OTranslate (- videoWidth fr) 0;
                OClearRect 0 0 (videoWidth fr) (videoHeight fr)]).
  destruct (exec_all_keeps_fields (draw_poses poses) c1 (draw_poses_keeps poses))
    as (E1 & E2 & _ & E4 & E5).
  set (c2 := exec_all c1 (draw_poses poses)) in *.
  change (exec_all c2 [ORestore]) with (exec c2 ORestore). unfold exec.
  assert (Hs : saved c1 = [(affine_id, "#000000", "#000000", 1)]) by reflexivity.
  rewrite E4, Hs, E1, E2, E5. reflexivity.
Qed.

Lemma tick_prefix_ctm (fr : Frame) (c : Canvas) :
  ctm (exec_all c [OSetWidth (videoWidth fr); OSetHeight (videoHeight fr); OSave;
                   OScale (-1) 1; OTranslate (- videoWidth fr) 0]) =
  affine_translate (affine_scale affine_id (-1) 1) (- videoWidth fr) 0.
Proof. reflexivity. Qed.

Lemma mirror_affine_maps (w x y : Q) :
  let p := apply_affine (affine_translate (affine_scale affine_id (-1) 1) (- w) 0) x y in
  fst p == w - x /\ snd p == y.
Proof. simpl. split; ring. Qed.

(** While a drawing tick issues its pose operations, the transform in force
    sends every point [(x, y)] to [(w - x, y)], [w] being the video width:
    the dots and lines are mirrored like the [scaleX(-1)] video under them. *)
Theorem tick_draws_mirrored (fr : Frame) (poses : list Pose) (c : Canvas) :
  readyState fr = 4%Z -> estimate fr = Some poses ->
  exists pre, fst (tick fr) = pre ++ draw_poses poses ++ [ORestore] /\
  forall k x y,
    let p := apply_affine (ctm (exec_all c (pre ++ firstn k (draw_poses poses)))) x y in
    fst p == videoWidth fr - x /\ snd p == y.
Proof.
  intros Hr He. exists [OSetWidth (videoWidth fr); OSetHeight (videoHeight fr); OSave;
                   OScale (-1) 1; OTranslate (- videoWidth fr) 0;
                   OClearRect 0 0 (videoWidth fr) (videoHeight fr)].
  split; [rewrite (tick_ready_ops fr poses Hr He); reflexivity|].
  intros k x y. rewrite exec_all_app.
  rewrite (proj1 (exec_all_keeps _ _ (forallb_firstn _ k _ (draw_poses_keeps poses)))).
  apply mirror_affine_maps.
Qed.

(** When [estimatePoses] rejects, the tick issues only the resize and the
    mirror set-up: the loop schedules nothing more, and the context is left
    with the mirror transform in force and one unreturned [ctx.save()]. *)
Theorem estimate_rejected_halts (fr : Frame) (c : Canvas) (rest : list Frame) :
  readyState fr = 4%Z -> estimate fr = None ->
  snd (tick fr) = false /\ tick_starts (fr :: rest) c = [c] /\
  List.length (saved (exec_all c (fst (tick fr)))) = 1%nat /\
  forall x y, let p := apply_affine (ctm (exec_all c (fst (tick fr)))) x y in
              fst p == videoWidth fr - x /\ snd p == y.
Proof.
  intros Hr He. assert (E : tick fr =
    ([OSetWidth (videoWidth fr); OSetHeight (videoHeight fr); OSave;
      OScale (-1) 1; OTranslate (- videoWidth fr) 0], false)).
  { unfold tick. rewrite Hr, He. reflexivity. }
  split; [rewrite E; reflexivity|]. split; [simpl; rewrite E; reflexivity|].
  rewrite E. cbn [fst]. split; [reflexivity|].
  intros x y. rewrite tick_prefix_ctm. apply mirror_affine_maps.
Qed.

(** ** Further properties of the verdict and of the drawing of a pose *)

Lemma find_kp_map (g : Keypoint -> Keypoint) (kps : list Keypoint) (n : string) :
  (forall kp, kname (g kp) = kname kp) ->
  find_kp (map g kps) n = option_map g (find_kp kps n).
Proof.
  intros Hg. unfold find_kp. induction kps as [|kp rest IH]; simpl; [reflexivity|].
  assert (E : name_is n (g kp) = name_is n kp) by (unfold name_is; rewrite Hg; reflexivity).
  rewrite E. destruct (name_is n kp); [reflexivity|exact IH].
Qed.

Lemma Qltb_wd (x y z : Q) : x == y -> Qltb x z = Qltb y z.
Proof.
  intros H. destruct (Qltb y z) eqn:E.
  - apply Qltb_iff. rewrite H. apply Qltb_iff. exact E.
  - destruct (Qltb x z) eqn:E'; [|reflexivity].
    apply Qltb_iff in E'. rewrite H in E'. apply Qltb_iff in E'. congruence.
Qed.

Lemma Qabs_shift (a b t : Q) : Qabs ((a + t) - (b + t)) == Qabs (a - b).
Proof. assert (E : (a + t) - (b + t) == a - b) by ring. rewrite E. reflexivity. Qed.

(** The verdict does not move with the person: moving every keypoint by the
    same vertical offset, and changing the x coordinates in any way, leaves
    [isPerfectAngle] unchanged. *)
Theorem isPerfectAngle_shift_invariant (f : Q -> Q) (t : Q) (pose : Pose) :
  isPerfectAngle (mkPose (map (shift_kp f t) (keypoints pose))) = isPerfectAngle pose.
Proof.
  unfold isPerfectAngle. simpl. rewrite !(find_kp_map (shift_kp f t)) by reflexivity.
  destruct (find_kp (keypoints pose) "left_shoulder") as [a|];
  destruct (find_kp (keypoints pose) "right_shoulder") as [b|];
  destruct (find_kp (keypoints pose) "left_hip") as [c|];
  destruct (find_kp (keypoints pose) "right_hip") as [d|]; try reflexivity.
  cbn [option_map shift_kp ky]. f_equal; apply Qltb_wd; apply Qabs_shift.
Qed.

Lemma name_is_swap (kp : Keypoint) :
  name_is "left_shoulder" (swap_kp kp) = name_is "right_shoulder" kp /\
  name_is "right_shoulder" (swap_kp kp) = name_is "left_shoulder" kp /\
  name_is "left_hip" (swap_kp kp) = name_is "right_hip" kp /\
  name_is "right_hip" (swap_kp kp) = name_is "left_hip" kp.
Proof.
  unfold name_is, swap_kp. simpl. destruct (kname kp) as [m|]; simpl; [|auto].
  destruct (String.eqb_spec m "left_shoulder"); [subst; auto|].
  destruct (String.eqb_spec m "right_shoulder"); [subst; auto|].
  destruct (String.eqb_spec m "left_hip"); [subst; auto|].
  destruct (String.eqb_spec m "right_hip"); [subst; auto|].
  simpl. repeat split;
  repeat match goal with
  | |- context [String.eqb m ?s] =>
      let E := fresh "E" in destruct (String.eqb_spec m s) as [E|E]; [congruence|]
  end; reflexivity.
Qed.

Lemma find_swap (kps : list Keypoint) (n n' : string) :
  (forall kp, name_is n (swap_kp kp) = name_is n' kp) ->
  find_kp (map swap_kp kps) n = option_map swap_kp (find_kp kps n').
Proof.
  intros H. unfold find_kp. induction kps as [|kp rest IH]; simpl; [reflexivity|].
  rewrite H. destruct (name_is n' kp); [reflexivity|exact IH].
Qed.

(** The verdict is symmetric in left and right: exchanging the names
    left_shoulder/right_shoulder and left_hip/right_hip throughout a pose
    (as seen in a mirror) leaves [isPerfectAngle] unchanged. *)
Theorem isPerfectAngle_left_right_symmetric (pose : Pose) :
  isPerfectAngle (mkPose (map swap_kp (keypoints pose))) = isPerfectAngle pose.
Proof.
  unfold isPerfectAngle. cbn [keypoints].
  rewrite (find_swap _ "left_shoulder" "right_shoulder")
    by (intros kp; apply (name_is_swap kp)).
  rewrite (find_swap _ "right_shoulder" "left_shoulder")
    by (intros kp; apply (name_is_swap kp)).
  rewrite (find_swap _ "left_hip" "right_hip")
    by (intros kp; apply (name_is_swap kp)).
  rewrite (find_swap _ "right_hip" "left_hip")
    by (intros kp; apply (name_is_swap kp)).
  destruct (find_kp (keypoints pose) "left_shoulder") as [a|];
  destruct (find_kp (keypoints pose) "right_shoulder") as [b|];
  destruct (find_kp (keypoints pose) "left_hip") as [c|];
  destruct (find_kp (keypoints pose) "right_hip") as [d|]; try reflexivity.
  cbn [option_map swap_kp ky]. rewrite (Qabs_Qminus (ky b)), (Qabs_Qminus (ky d)).
  reflexivity.
Qed.

Lemma draw_keypoints_counts (color : string) (kps : list Keypoint) :
  List.length (filter is_fill (draw_keypoints color kps)) =
    List.length (filter (fun kp => score_ok (kscore kp)) kps) /\
  filter is_stroke (draw_keypoints color kps) = [].
Proof.
  induction kps as [|kp rest [IH1 IH2]]; simpl; [auto|].
  unfold draw_keypoint. rewrite !filter_app, !length_app, IH1, IH2.
  destruct (score_ok (kscore kp)); simpl; auto.
Qed.

Lemma draw_pairs_counts (kps : list Keypoint) (color : string)
    (pairs : list (string * string)) :
  filter is_fill (draw_pairs kps color pairs) = [] /\
  (List.length (filter is_stroke (draw_pairs kps color pairs)) <= List.length pairs)%nat.
Proof.
  induction pairs as [|[a b] rest [IH1 IH2]]; simpl; [auto|].
  rewrite !filter_app, !length_app, IH1. simpl.
  destruct (find_kp kps a), (find_kp kps b);
  try destruct (score_ok _ && score_ok _); simpl; split; auto; lia.
Qed.

(** For every pose, the pose's drawing fills exactly one circle per keypoint
    whose score is above 0.5, and strokes at most 10 lines (one per
    configured pair). *)
Theorem draw_pose_counts (pose : Pose) :
  List.length (filter is_fill (draw_pose pose)) =
    List.length (filter (fun kp => score_ok (kscore kp)) (keypoints pose)) /\
  (List.length (filter is_stroke (draw_pose pose)) <= 10)%nat.
Proof.
  unfold draw_pose. rewrite !filter_app, !length_app.
  destruct (draw_keypoints_counts (pose_color pose) (keypoints pose)) as [H1 H2].
  destruct (draw_pairs_counts (keypoints pose) (pose_color pose) keypointPairs) as [H3 H4].
  rewrite H1, H2, H3. simpl. split; [lia|]. exact H4.
Qed.

Lemma find_kp_unnamed (kps : list Keypoint) (n : string) :
  (forall kp, In kp kps -> kname kp = None) -> find_kp kps n = None.
Proof.
  intros H. unfold find_kp. induction kps as [|kp rest IH]; simpl; [reflexivity|].
  unfold name_is at 1. rewrite (H kp (or_introl eq_refl)).
  apply IH. intros k Hk. apply H. right. exact Hk.
Qed.

(** A pose whose keypoints carry no names (the model did not label them) is
    judged not aligned, is drawn red, and gets no skeleton line at all: only
    its confident dots are drawn. *)
Theorem unnamed_pose_dots_only (pose : Pose) :
  (forall kp, In kp (keypoints pose) -> kname kp = None) ->
  isPerfectAngle pose = false /\ pose_color pose = "red" /\
  draw_pose pose = draw_keypoints "red" (keypoints pose).
Proof.
  intros H. assert (Hv : isPerfectAngle pose = false).
  { unfold isPerfectAngle. rewrite !(find_kp_unnamed _ _ H). reflexivity. }
  assert (Hc : pose_color pose = "red") by (unfold pose_color; rewrite Hv; reflexivity).
  split; [exact Hv|]. split; [exact Hc|].
  unfold draw_pose. rewrite Hc, draw_pairs_flat_map.
  assert (E : flat_map (draw_pair (keypoints pose) "red") keypointPairs = []).
  { generalize keypointPairs. intros pairs.
    induction pairs as [|[a b] rest IH]; [reflexivity|].
    simpl. rewrite !(find_kp_unnamed _ _ H). exact IH. }
  rewrite E. apply app_nil_r.
Qed.

(** ** Further properties of initialization, Retry and the view *)

Ltac split_env env :=
  destruct (backend_ok env) eqn:?, (ready_ok env) eqn:?, (detector_ok env) eqn:?,
           (refs_ok env) eqn:?, (context_ok env) eqn:?,
           (stream env) eqn:?, (play env) eqn:?.

Ltac no_in H := solve [simpl in H; repeat (destruct H as [H|H]; [discriminate H|]); destruct H].

(** [loadModel] starts the drawing loop exactly when every step succeeds
    (backend, readiness, detector, both element refs, the 2D context, the
    camera stream and [video.play()]); it sets the error at most once, and
    never both sets an error and starts the loop. *)
Theorem loadModel_outcomes (env : Env) :
  (In EStartLoop (loadModel env) <->
   backend_ok env = true /\ ready_ok env = true /\ detector_ok env = true /\
   refs_ok env = true /\ context_ok env = true /\
   (exists u, stream env = inl u) /\ (exists u, play env = inl u)) /\
  (List.length (filter is_set_error (loadModel env)) <= 1)%nat /\
  (In EStartLoop (loadModel env) -> forall e, ~ In (ESetError e) (loadModel env)).
Proof.
  unfold loadModel, startVideoStream. split_env env; cbn;
  (refine (conj (conj _ _) (conj _ _));
   [ first [intros H; no_in H | intros _; repeat split; eauto]
   | first [intros (H1 & H2 & H3 & H4 & H5 & [u1 Hu] & [v1 Hv]); congruence
           | intros _; simpl; auto 10]
   | lia
   | first [intros H; no_in H | intros _ e H; no_in H] ]).
Qed.

(** When the model cannot be loaded (the backend, its readiness or the
    detector fails), the error becomes the MoveNet loading message and the
    camera is never requested. *)
Theorem loadModel_model_failure (env : Env) (err : option string) :
  backend_ok env = false \/ ready_ok env = false \/ detector_ok env = false ->
  error_after err (loadModel env) = Some msg_model /\
  ~ In (ECall GetUserMedia) (loadModel env).
Proof.
  intros H. unfold loadModel.
  destruct (backend_ok env), (ready_ok env), (detector_ok env);
  try (destruct H as [H|[H|H]]; discriminate H);
  simpl; split; try reflexivity; intros Hin; no_in Hin.
Qed.

(** Once the model is loaded: a missing video or canvas element makes
    [loadModel] end silently (no error, no loop, the error state unchanged);
    a missing 2D context shows the generic camera message; a rejected
    [getUserMedia] or [video.play()] shows [handleError]'s message for that
    error and the loop is not started. *)
Theorem startVideoStream_failures (env : Env) (err : option string) :
  backend_ok env = true -> ready_ok env = true -> detector_ok env = true ->
  (refs_ok env = false ->
   loadModel env = [ECall SetBackend; ECall TfReady; ECall CreateDetector] /\
   error_after err (loadModel env) = err) /\
  (refs_ok env = true -> context_ok env = false ->
   error_after err (loadModel env) = Some msg_generic) /\
  (forall e, refs_ok env = true -> context_ok env = true ->
   (stream env = inr e \/ (exists u, stream env = inl u) /\ play env = inr e) ->
   error_after err (loadModel env) = Some (handleError_msg e) /\
   ~ In EStartLoop (loadModel env)).
Proof.
  intros Hb Hr Hd. unfold loadModel, startVideoStream. rewrite Hb, Hr, Hd. simpl.
  split; [intros Hf; rewrite Hf; split; reflexivity|].
  split; [intros Hf Hc; rewrite Hf, Hc; reflexivity|].
  intros e Hf Hc Hs. rewrite Hf, Hc. simpl.
  destruct Hs as [Hs|[[u Hs] Hp]]; rewrite Hs; [|rewrite Hp];
  simpl; split; try reflexivity; intros Hin; no_in Hin.
Qed.

(** On mount, the drawing loop can only start after a granted permission, or
    after a prompt whose probing stream was obtained; if the probe is refused,
    its error is shown through [handleError] and the model is never loaded. *)
Theorem mount_loop_requires_permission (env : Env) :
  (In EStartLoop (permission_effect env) ->
   perm env = Some PGranted \/
   (perm env = Some PPrompt /\ exists n, probe env = inl n)) /\
  (forall e, perm env = Some PPrompt -> probe env = inr e ->
   error_after None (permission_effect env) = Some (handleError_msg e) /\
   ~ In (ECall SetBackend) (permission_effect env)).
Proof.
  unfold permission_effect. split.
  - destruct (perm env) as [[| |]|]; [auto| |intros H; no_in H|intros H; no_in H].
    destruct (probe env) as [n|e] eqn:Ep; [eauto|intros H; no_in H].
  - intros e Hp He. rewrite Hp, He. simpl. split; [reflexivity|]. intros H; no_in H.
Qed.

Lemma error_after_app (err : option string) (l1 l2 : list Event) :
  error_after err (l1 ++ l2) = error_after (error_after err l1) l2.
Proof.
  revert err. induction l1 as [|ev rest IH]; intros err; [reflexivity|].
  destruct ev; simpl; apply IH.
Qed.

Lemma error_after_stop_tracks (err : option string) (l : list nat) :
  error_after err (map EStopTrack l) = err.
Proof. revert err. induction l as [|i rest IH]; intros err; [reflexivity|]. apply IH. Qed.

(** Retry after any error ends in the same error state, and starts the loop
    in the same cases, as the mount did when the permission let it reach
    [loadModel] (granted, or prompt with the probe obtained). *)
Theorem retry_matches_mount (err : option string) (env : Env) :
  perm env = Some PGranted \/ (perm env = Some PPrompt /\ exists n, probe env = inl n) ->
  snd (retry err env) = error_after None (permission_effect env) /\
  (In EStartLoop (fst (retry err env)) <-> In EStartLoop (permission_effect env)).
Proof.
  intros H. unfold retry, permission_effect. cbn [fst snd error_after].
  destruct H as [H|[H [n Hn]]]; rewrite H; [|rewrite Hn].
  - cbn [error_after]. split; [reflexivity|]. cbn [In]. split; intros [E|E];
    (discriminate E || auto).
  - cbn [error_after]. rewrite error_after_app, error_after_stop_tracks.
    split; [reflexivity|]. cbn [In app]. rewrite in_app_iff. split.
    + intros [E|E]; [discriminate E|right; right; right; exact E].
    + intros [E|[E|[E|E]]]; try discriminate E; [|right; exact E].
      apply in_map_iff in E as [i [Ei _]]. discriminate Ei.
Qed.

Definition all_msgs : list string :=
  [msg_not_allowed; msg_not_found; msg_abort; msg_not_readable; msg_overconstrained;
   msg_security; msg_generic; msg_model; msg_perm_denied; msg_perm_unable].

Lemma handleError_msg_in (e : JsError) : In (handleError_msg e) all_msgs.
Proof.
  unfold handleError_msg.
  destruct (name_eq e "NotAllowedError"), (name_eq e "NotFoundError"),
           (name_eq e "AbortError"), (name_eq e "NotReadableError"),
           (name_eq e "OverconstrainedError"), (name_eq e "SecurityError");
  simpl; tauto.
Qed.

Lemma all_msgs_nonempty (m : string) : In m all_msgs -> m <> "".
Proof. intros H; simpl in H; repeat destruct H as [<-|H]; try discriminate; destruct H. Qed.

Lemma error_after_origin (err : option string) (evs : list Event) :
  error_after err evs = err \/ In (ESetError (error_after err evs)) evs.
Proof.
  revert err. induction evs as [|ev rest IH]; intros err; [left; reflexivity|].
  destruct ev as [c|i|e|]; simpl;
  try (destruct (IH err) as [E|E]; [left; exact E|right; right; exact E]).
  destruct (IH e) as [E|E]; right; [left; rewrite E; reflexivity|right; exact E].
Qed.

Lemma loadModel_msgs (env : Env) (m : string) :
  In (ESetError (Some m)) (loadModel env) -> In m all_msgs.
Proof.
  unfold loadModel, startVideoStream. split_env env; simpl; intros H;
  repeat (destruct H as [H|H]; [try discriminate H; injection H as <-;
          first [apply handleError_msg_in | simpl; tauto]|]); destruct H.
Qed.

Lemma permission_effect_msgs (env : Env) (m : string) :
  In (ESetError (Some m)) (permission_effect env) -> In m all_msgs.
Proof.
  unfold permission_effect. intros H. destruct H as [H|H]; [discriminate H|].
  destruct (perm env) as [[| |]|].
  - exact (loadModel_msgs env m H).
  - destruct H as [H|H]; [discriminate H|]. destruct (probe env) as [n|e].
    + apply in_app_iff in H as [H|H]; [|exact (loadModel_msgs env m H)].
      apply in_map_iff in H as [i [Ei _]]. discriminate Ei.
    + destruct H as [H|H]; [|destruct H]. injection H as <-. apply handleError_msg_in.
  - destruct H as [H|H]; [|destruct H]. injection H as <-. simpl; tauto.
  - destruct H as [H|H]; [|destruct H]. injection H as <-. simpl; tauto.
Qed.

(** Every error the component can be left with, after the mount or after a
    Retry, is a non-empty message, so it is always displayed with the Retry
    button and the video hidden. *)
Theorem errors_always_displayed (env : Env) (err : option string) (m : string) :
  error_after None (permission_effect env) = Some m \/ snd (retry err env) = Some m ->
  render (Some m) = [NErrorText m; NRetryButton; NVideo "none"; NCanvas].
Proof.
  intros H. assert (Hm : In m all_msgs).
  { destruct H as [H|H].
    - destruct (error_after_origin None (permission_effect env)) as [E|E];
      rewrite H in E; [discriminate E|exact (permission_effect_msgs env m E)].
    - unfold retry in H. cbn [snd error_after] in H.
      destruct (error_after_origin None (loadModel env)) as [E|E];
      rewrite H in E; [discriminate E|exact (loadModel_msgs env m E)]. }
  unfold render. destruct (String.eqb_spec m "") as [E|E].
  - exfalso. exact (all_msgs_nonempty m Hm E).
  - reflexivity.
Qed.

(** The view always contains the canvas; it shows the Retry button exactly
    when it hides the video, and exactly when the error is a non-empty
    string. *)
Theorem render_layout (err : option string) :
  In NCanvas (render err) /\
  (In NRetryButton (render err) <-> In (NVideo "none") (render err)) /\
  (In NRetryButton (render err) <-> exists m, err = Some m /\ m <> "").
Proof.
  unfold render. destruct err as [m|].
  - destruct (String.eqb_spec m "") as [E|E]; simpl.
    + split; [tauto|]. split; split; intros H;
      try solve [repeat destruct H as [H|H]; discriminate H || destruct H].
      destruct H as [m0 [Hx Hne]]. injection Hx as <-. contradiction.
    + split; [tauto|]. split; split; intros; eauto; tauto.
  - simpl. split; [tauto|]. split; split; intros H;
    try solve [repeat destruct H as [H|H]; discriminate H || destruct H].
    destruct H as [m0 [Hx _]]. discriminate Hx.
Qed.

(** ** Witnesses of the further properties *)

Definition frame_ok : Frame := mkFrame 4 640 480 (Some [body (9 # 10) (9 # 10)]).
Definition frame_rejected : Frame := mkFrame 4 640 480 None.

Lemma tick_final_state_witness :
  cw (exec_all (reset_canvas 300 150) (fst (tick frame_ok))) = 640 /\
  ctm (exec_all (reset_canvas 300 150) (fst (tick frame_ok))) = affine_id.
Proof.
  rewrite (tick_final_state frame_ok [body (9 # 10) (9 # 10)] (reset_canvas 300 150)
             eq_refl eq_refl).
  split; reflexivity.
Defined.

Lemma tick_draws_mirrored_witness :
  exists pre, fst (tick frame_ok) = pre ++ draw_poses [body (9 # 10) (9 # 10)] ++ [ORestore].
Proof.
  destruct (tick_draws_mirrored frame_ok [body (9 # 10) (9 # 10)] (reset_canvas 300 150)
              eq_refl eq_refl) as [pre [Hpre _]].
  exists pre. exact Hpre.
Defined.

Lemma estimate_rejected_halts_witness :
  tick_starts [frame_rejected; frame_ok] (reset_canvas 300 150) = [reset_canvas 300 150].
Proof.
  apply (proj1 (proj2 (estimate_rejected_halts frame_rejected (reset_canvas 300 150)
                         [frame_ok] eq_refl eq_refl))).
Defined.

Definition unname (kp : Keypoint) : Keypoint := mkKeypoint (kx kp) (ky kp) (kscore kp) None.

(** The aligned, fully confident body is green with all its lines; with the
    names removed, the same keypoints are drawn red, as dots only. *)
Lemma unnamed_pose_dots_only_witness :
  pose_color (body (9 # 10) (9 # 10)) = "green" /\
  draw_pairs (keypoints (body (9 # 10) (9 # 10))) "green" keypointPairs <> [] /\
  pose_color (mkPose (map unname (keypoints (body (9 # 10) (9 # 10))))) = "red" /\
  draw_pose (mkPose (map unname (keypoints (body (9 # 10) (9 # 10))))) =
    draw_keypoints "red" (map unname (keypoints (body (9 # 10) (9 # 10)))).
Proof.
  split; [reflexivity|]. split; [vm_compute; discriminate|].
  apply (proj2 (unnamed_pose_dots_only
                  (mkPose (map unname (keypoints (body (9 # 10) (9 # 10)))))
                  ltac:(intros kp Hkp; apply in_map_iff in Hkp as [k [<- _]];
                        reflexivity))).
Defined.

Lemma loadModel_outcomes_witness : In EStartLoop (loadModel env_ok).
Proof.
  apply (proj2 (proj1 (loadModel_outcomes env_ok))).
  repeat split; eexists; reflexivity.
Defined.

Definition env_no_backend : Env :=
  mkEnv (Some PGranted) (inl 1%nat) false true true true true (inl tt) (inl tt).

Lemma loadModel_model_failure_witness :
  error_after None (loadModel env_no_backend) = Some msg_model.
Proof.
  apply (proj1 (loadModel_model_failure env_no_backend None (or_introl eq_refl))).
Defined.

Definition env_no_camera : Env :=
  mkEnv (Some PGranted) (inl 1%nat) true true true true true
        (inr (mkJsError (Some "NotFoundError"))) (inl tt).

Lemma startVideoStream_failures_witness :
  error_after None (loadModel env_no_camera) = Some msg_not_found.
Proof.
  apply (proj1 (proj2 (proj2 (startVideoStream_failures env_no_camera None
           eq_refl eq_refl eq_refl)) (mkJsError (Some "NotFoundError"))
           eq_refl eq_refl (or_introl eq_refl))).
Defined.

Lemma mount_loop_requires_permission_witness :
  perm env_ok = Some PGranted \/
  (perm env_ok = Some PPrompt /\ exists n, probe env_ok = inl n).
Proof.
  apply (proj1 (mount_loop_requires_permission env_ok)). vm_compute. tauto.
Defined.

Lemma retry_matches_mount_witness :
  snd (retry (Some msg_not_found) env_no_camera) =
  error_after None (permission_effect env_no_camera).
Proof.
  apply (proj1 (retry_matches_mount (Some msg_not_found) env_no_camera
                  (or_introl eq_refl))).
Defined.

Lemma errors_always_displayed_witness :
  render (Some msg_perm_denied) =
    [NErrorText msg_perm_denied; NRetryButton; NVideo "none"; NCanvas].
Proof.
  apply (errors_always_displayed env_denied None msg_perm_denied (or_introl eq_refl)).
Defined.

Lemma render_layout_witness : In (NVideo "none") (render (Some msg_model)).
Proof.
  apply (proj1 (proj1 (proj2 (render_layout (Some msg_model))))). simpl. tauto.
Defined.
